(** * hw.cpp: ten pseudo-random numbers and their sum

    A shallow embedding of [src/CPP/hw.cpp].  The program seeds the C
    library generator from the clock, fills [numbers[10]] with
    [rand() % 100 + 1], prints every element as it is produced, adds it to
    [sum], and finally prints [sum].

    The C library generator is kept abstract: a type of generator states
    with [srand] and [rand].  Standard output is the string of characters
    written so far.  [int] is a 32-bit two's complement integer whose
    arithmetic is written on [Z] with its wrap-around. *)

From Stdlib Require Import ZArith String Ascii List Lia.
From Stdlib Require Import Decimal DecimalString DecimalZ DecimalPos.
From stdpp Require Import base option list strings.
From Equations Require Import Equations.
Import ListNotations.

Local Open Scope Z_scope.

(** String concatenation is unfolded by [simpl] on a known prefix. *)
Local Arguments String.append !_ _ / : simpl nomatch.

(** ** Machine integers *)

Module Int.

Definition INT_MIN : Z := - 2 ^ 31.
Definition INT_MAX : Z := 2 ^ 31 - 1.

Definition in_range (z : Z) : Prop := INT_MIN <= z <= INT_MAX.

(** Reduction of a mathematical integer to its 32-bit signed
    representative. *)
Definition wrap (z : Z) : Z := (z + 2 ^ 31) mod 2 ^ 32 - 2 ^ 31.

(** [a + b] on [int].  C++ leaves a signed addition that overflows
    undefined; the model takes the two's complement result, and the
    theorems below show that no addition of this program reaches it. *)
Definition add (a b : Z) : Z := wrap (a + b).

(** [a % b] on [int]: the remainder of the division that truncates toward
    zero, so it has the sign of [a]. *)
Definition rem (a b : Z) : Z := Z.rem a b.

End Int.

(** ** [operator<<] for [int] and its inverse *)

(** Decimal text of an integer: digits, with a leading minus sign for a
    negative number. *)
Definition show_int (z : Z) : string := NilZero.string_of_int (Z.to_int z).

(** Reading a decimal token back; used to state what an output line
    displays. *)
Definition parse_int (s : string) : option Z :=
  Z.of_int <$> NilZero.int_of_string s.

(** The character written by [std::endl]. *)
Definition nl : ascii := "010"%char.
Definition endl_str : string := String nl EmptyString.

(** ** The program *)

Definition SIZE : Z := 10.

Definition label_elements : string := "The random array elements are: ".
Definition label_sum : string := "The sum of the array elements is: ".

(** [int numbers[SIZE]]: a cell is [None] until it has been assigned. *)
Abbreviation array := (list (option Z)).

(** [a[i] = v]; an index outside the array has no defined behaviour. *)
Definition array_store (a : array) (i v : Z) : option array :=
  if decide (0 <= i < Z.of_nat (length a))
  then Some (<[Z.to_nat i := Some v]> a)
  else None.

(** Reading [a[i]]; neither an index outside the array nor a cell never
    assigned has a defined value. *)
Definition array_load (a : array) (i : Z) : option Z :=
  if decide (0 <= i) then mjoin (a !! Z.to_nat i) else None.

(** [rand() % 100 + 1] *)
Definition map_value (raw : Z) : Z := Int.add (Int.rem raw 100) 1.

Section Program.

(** The C library generator: its hidden state, [srand] and [rand]. *)
Variable RNG : Type.
Variable srand : Z -> RNG.
Variable rand : RNG -> Z * RNG.

Record state : Type := mkState {
  rng : RNG;
  numbers : array;
  sum : Z;
  cout : string
}.

(** [std::cout << s], [std::cout << n] and [std::cout << std::endl] *)
Definition put (s : string) (st : state) : state :=
  mkState (rng st) (numbers st) (sum st) (cout st +:+ s).
Definition put_int (n : Z) (st : state) : state := put (show_int n) st.
Definition endl (st : state) : state := put endl_str st.

(** The raw values returned by the next [n] calls of [rand()]. *)
Fixpoint draws (n : nat) (g : RNG) : list Z :=
  match n with
  | O => []
  | S n' => let '(raw, g') := rand g in raw :: draws n' g'
  end.

(** One execution of the body of the [for] loop. *)
Definition loop_body (i : Z) (st : state) : option state :=
  let '(raw, g') := rand (rng st) in
  a ← array_store (numbers st) i (map_value raw);
  let st1 := mkState g' a (sum st) (cout st) in
  x ← array_load (numbers st1) i;
  let st2 := put " " (put_int x st1) in
  y ← array_load (numbers st2) i;
  Some (mkState (rng st2) (numbers st2) (Int.add (sum st2) y) (cout st2)).

(** [for (int i = ...; i < SIZE; ++i) body], entered with the given [i]. *)
Equations? for_loop (i : Z) (st : state) : option state
  by wf (Z.to_nat (SIZE - i)) lt :=
  for_loop i st with Z_lt_dec i SIZE := {
    | left _ =>
        match loop_body i st with
        | Some st' => for_loop (Int.add i 1) st'
        | None => None
        end
    | right _ => Some st }.
Proof.
  unfold Int.add, Int.wrap, SIZE in *.
  destruct (Z_lt_dec (i + 1) (- 2 ^ 31)).
  - assert (0 <= (i + 1 + 2 ^ 31) mod 2 ^ 32) by (apply Z.mod_pos_bound; lia).
    lia.
  - assert (i + 1 + 2 ^ 31 < 2 ^ 32) by lia.
    rewrite Z.mod_small by lia. lia.
Qed.

(** The state [main] starts from, once the generator is seeded. *)
Definition initial (g : RNG) : state :=
  mkState g (replicate (Z.to_nat SIZE) None) 0 "".

(** The statements of [main] before [return 0], given the value [now]
    that [time(0)] returns.  [srand] takes an [unsigned], so the time is
    reduced modulo [2^32]. *)
Definition main_run (now : Z) : option state :=
  let st := initial (srand (now mod 2 ^ 32)) in
  let st := endl (put label_elements st) in
  st ← for_loop 0 st;
  let st := endl st in
  let st := endl (put_int (sum st) (put label_sum st)) in
  Some st.

(** [main]: the exit code and everything written to standard output. *)
Definition main (now : Z) : option (Z * string) :=
  st ← main_run now;
  Some (0, cout st).

(** The state reached after the first [k] executions of the loop body,
    the loop having been entered with [i = 0]. *)
Fixpoint iterations (k : nat) (st : state) : option state :=
  match k with
  | O => Some st
  | S k' => st' ← iterations k' st; loop_body (Z.of_nat k') st'
  end.

(** The state in which [main] enters the loop. *)
Definition loop_entry (now : Z) : state :=
  endl (put label_elements (initial (srand (now mod 2 ^ 32)))).

(** The generator after [n] calls of [rand()]. *)
Fixpoint rng_after (n : nat) (g : RNG) : RNG :=
  match n with
  | O => g
  | S n' => rng_after n' (snd (rand g))
  end.

(** The first [n] elements the loop computes from generator state [g]. *)
Definition values (n : nat) (g : RNG) : list Z := map_value <$> draws n g.

End Program.

Arguments rng {RNG} _.
Arguments numbers {RNG} _.
Arguments sum {RNG} _.
Arguments cout {RNG} _.
Arguments mkState {RNG} _ _ _ _.
Arguments put {RNG} _ _.
Arguments put_int {RNG} _ _.
Arguments endl {RNG} _.
Arguments draws {RNG} _ _ _.
Arguments loop_body {RNG} _ _ _.
Arguments for_loop {RNG} _ _ _.
Arguments initial {RNG} _.
Arguments main_run {RNG} _ _ _.
Arguments main {RNG} _ _ _.
Arguments iterations {RNG} _ _ _.
Arguments loop_entry {RNG} _ _.
Arguments rng_after {RNG} _ _ _.
Arguments values {RNG} _ _ _.

(** ** A stub generator that replays a list of raw values *)

Module Stub.

Definition RNG := list Z.
Definition srand (l : list Z) (_ : Z) : RNG := l.
Definition rand (g : RNG) : Z * RNG :=
  match g with
  | [] => (0, [])
  | r :: g' => (r, g')
  end.

Definition run (l : list Z) : option (Z * string) :=
  main (srand l) rand 0.

End Stub.

Definition scenario : list Z := [5; 99; 0; 3; 50; 7; 88; 12; 200; 1].


(** ** Reading the output back

    What a line of the output displays is stated through these functions:
    the output is cut into lines at the line breaks, a line into tokens at
    the spaces, and a token is read as a decimal integer. *)

(** Puts [a] in front of the first piece. *)
Definition prepend (a : ascii) (ws : list string) : list string :=
  match ws with
  | [] => [String a EmptyString]
  | w :: ws' => String a w :: ws'
  end.

(** The pieces of [s] between the occurrences of [c]. *)
Fixpoint split_on (c : ascii) (s : string) : list string :=
  match s with
  | EmptyString => [EmptyString]
  | String a s' =>
      if Ascii.eqb a c then EmptyString :: split_on c s'
      else prepend a (split_on c s')
  end.

Definition lines (s : string) : list string := split_on nl s.

Definition nonempty (s : string) : bool :=
  match s with EmptyString => false | String _ _ => true end.

(** The tokens of a line: its maximal runs of characters other than the
    space. *)
Definition tokens (s : string) : list string :=
  List.filter nonempty (split_on " " s).

Fixpoint has_char (c : ascii) (s : string) : bool :=
  match s with
  | EmptyString => false
  | String a s' => Ascii.eqb a c || has_char c s'
  end.

(** The characters [operator<<] uses for an [int]. *)
Definition numeric (c : ascii) : bool := has_char c "-0123456789".

Fixpoint strip_prefix (p s : string) : option string :=
  match p, s with
  | EmptyString, _ => Some s
  | String a p', String b s' =>
      if Ascii.eqb a b then strip_prefix p' s' else None
  | String _ _, EmptyString => None
  end.

(** The integers a line displays: those of its tokens that read as an
    integer, in order. *)
Definition numbers_on (line : string) : list Z := omap parse_int (tokens line).

(** The sum a line reports: the integer after the label of the sum. *)
Definition reported_sum (line : string) : option Z :=
  strip_prefix label_sum line ≫= parse_int.

Definition Zsum (l : list Z) : Z := foldr Z.add 0 l.

(** The text the loop writes for the elements [vs]: every element is
    followed by one space. *)
Definition numbers_text (vs : list Z) : string :=
  foldr (fun v acc => show_int v +:+ " " +:+ acc) "" vs.

(** The value of [sum] after adding the elements [vs] to [s], one [+=] at
    a time. *)
Definition accumulate (s : Z) (vs : list Z) : Z := foldl Int.add s vs.

(** The whole text written for the elements [vs] and the total [total]. *)
Definition report (vs : list Z) (total : Z) : string :=
  label_elements +:+ endl_str +:+ numbers_text vs +:+ endl_str +:+
  label_sum +:+ show_int total +:+ endl_str.


(** The shape of an output: line by line and token by token, with every
    integer replaced by a mark. *)
Inductive token : Type :=
  | TNum
  | TWord (w : string).

Definition classify (w : string) : token :=
  match parse_int w with
  | Some _ => TNum
  | None => TWord w
  end.

Definition shape (out : string) : list (list token) :=
  (fun l => classify <$> tokens l) <$> lines out.

(** Ten numbers on their line, followed by one line for the sum. *)
Definition expected_shape : list (list token) :=
  [ [TWord "The"; TWord "random"; TWord "array"; TWord "elements";
     TWord "are:"];
    replicate 10 TNum;
    [TWord "The"; TWord "sum"; TWord "of"; TWord "the"; TWord "array";
     TWord "elements"; TWord "is:"; TNum];
    [] ].

(** How many of the raw values [0], ..., [n - 1] give the element [v]. *)
Fixpoint count_raws (v : Z) (n : nat) : Z :=
  match n with
  | O => 0
  | S n' =>
      count_raws v n' + (if decide (map_value (Z.of_nat n') = v) then 1 else 0)
  end.

(** [st] with another value in [sum]. *)
Definition with_sum {RNG : Type} (s : Z) (st : state RNG) : state RNG :=
  mkState (rng st) (numbers st) s (cout st).

(** ** Two readings of the output layout that put the numbers on the
    label's line *)

(** The first line displays ten numbers and the second line reports their
    sum. *)
Definition sum_on_second_line (out : string) : Prop :=
  exists (first second : string) (rest : list string),
    lines out = first :: second :: rest /\
    length (numbers_on first) = 10%nat /\
    reported_sum second = Some (Zsum (numbers_on first)).


(** * Proofs *)

(** ** Integer arithmetic *)

Lemma wrap_in_range (z : Z) : Int.in_range z -> Int.wrap z = z.
Proof.
  unfold Int.in_range, Int.INT_MIN, Int.INT_MAX, Int.wrap. intros Hz.
  rewrite Z.mod_small by lia. lia.
Qed.

Lemma rem_100_bounds (raw : Z) : -99 <= Int.rem raw 100 <= 99.
Proof.
  unfold Int.rem. pose proof (Z.rem_bound_abs raw 100). lia.
Qed.

Lemma map_value_exact (raw : Z) : map_value raw = Z.rem raw 100 + 1.
Proof.
  unfold map_value, Int.add. pose proof (rem_100_bounds raw) as Hb.
  unfold Int.rem in *. apply wrap_in_range.
  unfold Int.in_range, Int.INT_MIN, Int.INT_MAX. lia.
Qed.

Lemma map_value_bounds (raw : Z) : -98 <= map_value raw <= 100.
Proof.
  rewrite map_value_exact. pose proof (rem_100_bounds raw) as Hb.
  unfold Int.rem in Hb. lia.
Qed.

Lemma map_value_nonneg (raw : Z) :
  0 <= raw -> map_value raw = raw mod 100 + 1 /\ 1 <= map_value raw <= 100.
Proof.
  intros Hraw. rewrite map_value_exact, Z.rem_mod_nonneg by lia.
  pose proof (Z.mod_pos_bound raw 100). lia.
Qed.

Example map_value_200 : map_value 200 = 1.
Proof. reflexivity. Qed.

Example map_value_99 : map_value 99 = 100.
Proof. reflexivity. Qed.

(** [%] truncates toward zero: a negative raw value, which [rand()] never
    returns, would give an element below 1. *)
Example map_value_negative : map_value (-5) = -4.
Proof. reflexivity. Qed.

(** ** Strings *)

Example show_int_examples :
  show_int 0 = "0" /\ show_int 100 = "100" /\ show_int (-4) = "-4".
Proof. repeat split. Qed.

Example lines_example :
  lines ("ab" +:+ endl_str +:+ "c d " +:+ endl_str) = ["ab"; "c d "; ""].
Proof. reflexivity. Qed.

Example tokens_example : tokens "6 100 1 " = ["6"; "100"; "1"].
Proof. reflexivity. Qed.

Lemma append_assoc (s t u : string) : (s +:+ t) +:+ u = s +:+ (t +:+ u).
Proof. induction s as [|a s IH]; simpl; [reflexivity | now rewrite IH]. Qed.

Lemma append_nil_r (s : string) : s +:+ "" = s.
Proof. induction s as [|a s IH]; simpl; [reflexivity | now rewrite IH]. Qed.

Lemma has_char_append (c : ascii) (s t : string) :
  has_char c (s +:+ t) = has_char c s || has_char c t.
Proof.
  induction s as [|a s IH]; simpl; [reflexivity |].
  rewrite IH. now rewrite orb_assoc.
Qed.

Lemma split_on_nonnil (c : ascii) (s : string) : split_on c s <> [].
Proof.
  induction s as [|a s IH]; simpl; [discriminate |].
  destruct (Ascii.eqb a c); [discriminate |].
  destruct (split_on c s); discriminate.
Qed.

Lemma prepend_app (a : ascii) (ws vs : list string) :
  ws <> [] -> prepend a (ws ++ vs) = prepend a ws ++ vs.
Proof. destruct ws; [congruence | reflexivity]. Qed.

(** Cutting at [c] a text made of two parts joined by [c] cuts each part. *)
Lemma split_on_app_sep (c : ascii) (u v : string) :
  split_on c (u +:+ String c v) = split_on c u ++ split_on c v.
Proof.
  induction u as [|a u IH]; simpl.
  - now rewrite Ascii.eqb_refl.
  - destruct (Ascii.eqb a c); rewrite IH; [reflexivity |].
    apply prepend_app, split_on_nonnil.
Qed.

Lemma split_on_absent (c : ascii) (s : string) :
  has_char c s = false -> split_on c s = [s].
Proof.
  induction s as [|a s IH]; simpl; [reflexivity |].
  intros H. apply orb_false_elim in H as [Ha Hs].
  rewrite Ha, (IH Hs). reflexivity.
Qed.

Lemma lines_app_endl (u v : string) :
  lines (u +:+ endl_str +:+ v) = lines u ++ lines v.
Proof. apply split_on_app_sep. Qed.

Lemma lines_endl_last (u : string) : lines (u +:+ endl_str) = lines u ++ [""].
Proof.
  change (u +:+ endl_str) with (u +:+ endl_str +:+ "").
  apply lines_app_endl.
Qed.

Lemma tokens_app_space (u v : string) :
  tokens (u +:+ " " +:+ v) = tokens u ++ tokens v.
Proof.
  unfold tokens. change (u +:+ " " +:+ v) with (u +:+ String " " v).
  rewrite split_on_app_sep. apply List.filter_app.
Qed.

Lemma strip_prefix_append (p s : string) : strip_prefix p (p +:+ s) = Some s.
Proof.
  induction p as [|a p IH]; simpl; [now destruct s |].
  now rewrite Ascii.eqb_refl.
Qed.

(** ** Decimal text *)

Lemma numeric_absent (c a : ascii) :
  numeric c = false -> numeric a = true -> Ascii.eqb a c = false.
Proof.
  intros Hc Ha. destruct (Ascii.eqb_spec a c) as [-> | Hne]; congruence.
Qed.

Lemma string_of_uint_chars (c : ascii) (d : uint) :
  numeric c = false -> has_char c (NilEmpty.string_of_uint d) = false.
Proof.
  intros Hc.
  induction d; cbn [NilEmpty.string_of_uint has_char]; [reflexivity | ..];
    rewrite IHd, orb_false_r; now apply numeric_absent.
Qed.

(** The text of an integer only holds digits and the minus sign. *)
Lemma show_int_chars (c : ascii) (z : Z) :
  numeric c = false -> has_char c (show_int z) = false.
Proof.
  intros Hc. unfold show_int.
  assert (Hu : forall d, has_char c (NilZero.string_of_uint d) = false).
  { intros d. destruct d; try apply (string_of_uint_chars c _ Hc).
    cbn [NilZero.string_of_uint has_char].
    rewrite orb_false_r. now apply numeric_absent. }
  destruct (Z.to_int z); cbn [NilZero.string_of_int has_char]; [apply Hu |].
  rewrite Hu, orb_false_r. now apply numeric_absent.
Qed.

Lemma show_int_nonempty (z : Z) : nonempty (show_int z) = true.
Proof.
  unfold show_int. destruct (Z.to_int z) as [d | d]; simpl; [| reflexivity].
  destruct d; reflexivity.
Qed.

(** Reading back what [operator<<] wrote gives the integer written. *)
Lemma parse_show (z : Z) : parse_int (show_int z) = Some z.
Proof.
  unfold parse_int, show_int. rewrite NilZero.isi.
  - simpl. now rewrite DecimalZ.of_to.
  - destruct z as [|p|p]; simpl; try discriminate.
    intros [= H]. now apply (Unsigned.to_uint_nonnil p).
  - destruct z as [|p|p]; simpl; try discriminate.
    intros [= H]. now apply (Unsigned.to_uint_nonnil p).
Qed.

Lemma tokens_show_int (z : Z) : tokens (show_int z) = [show_int z].
Proof.
  unfold tokens. rewrite split_on_absent by now apply show_int_chars.
  simpl. now rewrite show_int_nonempty.
Qed.

Lemma numbers_text_cons (v : Z) (vs : list Z) :
  numbers_text (v :: vs) = show_int v +:+ " " +:+ numbers_text vs.
Proof. reflexivity. Qed.

Lemma numbers_text_app (us vs : list Z) :
  numbers_text (us ++ vs) = numbers_text us +:+ numbers_text vs.
Proof.
  induction us as [|u us IH]; simpl; [reflexivity |].
  rewrite IH. now rewrite !append_assoc.
Qed.

Lemma numbers_text_no_nl (vs : list Z) : has_char nl (numbers_text vs) = false.
Proof.
  induction vs as [|v vs IH]; [reflexivity |].
  rewrite numbers_text_cons, !has_char_append, IH, show_int_chars
    by reflexivity.
  reflexivity.
Qed.

Lemma tokens_numbers_text (vs : list Z) :
  tokens (numbers_text vs) = show_int <$> vs.
Proof.
  induction vs as [|v vs IH]; [reflexivity |].
  rewrite numbers_text_cons, tokens_app_space, tokens_show_int, IH.
  reflexivity.
Qed.

Lemma numbers_on_numbers_text (vs : list Z) :
  numbers_on (numbers_text vs) = vs.
Proof.
  unfold numbers_on. rewrite tokens_numbers_text.
  induction vs as [|v vs IH]; [reflexivity |].
  cbn [fmap list_fmap omap list_omap]. now rewrite parse_show, IH.
Qed.





(** ** The report *)

Lemma lines_report (vs : list Z) (total : Z) :
  lines (report vs total) =
  [label_elements; numbers_text vs; label_sum +:+ show_int total; ""].
Proof.
  unfold report.
  rewrite lines_app_endl, lines_app_endl.
  rewrite <- (append_assoc label_sum), lines_endl_last.
  unfold lines.
  rewrite (split_on_absent nl label_elements) by reflexivity.
  rewrite (split_on_absent nl (numbers_text vs)) by apply numbers_text_no_nl.
  rewrite (split_on_absent nl (label_sum +:+ show_int total)).
  - reflexivity.
  - rewrite has_char_append, show_int_chars by reflexivity. reflexivity.
Qed.

Lemma reported_sum_line (total : Z) :
  reported_sum (label_sum +:+ show_int total) = Some total.
Proof.
  unfold reported_sum. rewrite strip_prefix_append.
  cbn [mbind option_bind]. apply parse_show.
Qed.

Lemma classify_show_int (z : Z) : classify (show_int z) = TNum.
Proof. unfold classify. now rewrite parse_show. Qed.

Lemma shape_report (vs : list Z) (total : Z) :
  shape (report vs total) =
  [ [TWord "The"; TWord "random"; TWord "array"; TWord "elements";
     TWord "are:"];
    replicate (length vs) TNum;
    [TWord "The"; TWord "sum"; TWord "of"; TWord "the"; TWord "array";
     TWord "elements"; TWord "is:"; TNum];
    [] ].
Proof.
  unfold shape. rewrite lines_report.
  assert (Hnums : classify <$> tokens (numbers_text vs)
                  = replicate (length vs) TNum).
  { rewrite tokens_numbers_text.
    induction vs as [|v vs IH]; [reflexivity |].
    cbn [fmap list_fmap length replicate]. now rewrite classify_show_int, IH. }
  assert (Hsum : classify <$> tokens (label_sum +:+ show_int total)
                 = [TWord "The"; TWord "sum"; TWord "of"; TWord "the";
                    TWord "array"; TWord "elements"; TWord "is:"; TNum]).
  { change (label_sum +:+ show_int total)
      with ("The sum of the array elements is:" +:+ " " +:+ show_int total).
    rewrite tokens_app_space, tokens_show_int, fmap_app.
    cbn [fmap list_fmap]. now rewrite classify_show_int. }
  cbn [fmap list_fmap]. rewrite Hnums, Hsum. reflexivity.
Qed.

(** ** Sums *)

Lemma accumulate_exact (vs : list Z) (s : Z) :
  Forall (fun v => -98 <= v <= 100) vs ->
  Z.abs s + 100 * Z.of_nat (length vs) <= Int.INT_MAX ->
  accumulate s vs = s + Zsum vs.
Proof.
  intros Hvs. revert s.
  induction Hvs as [|v vs Hv Hvs IH]; intros s Hs; cbn [accumulate foldl Zsum foldr length] in *.
  - lia.
  - fold (accumulate (Int.add s v) vs). fold (Zsum vs).
    assert (Hadd : Int.add s v = s + v).
    { unfold Int.add. apply wrap_in_range.
      unfold Int.in_range, Int.INT_MIN, Int.INT_MAX in *. lia. }
    rewrite Hadd, IH by (unfold Int.INT_MAX in *; lia). lia.
Qed.

Lemma Zsum_bounds (vs : list Z) (lo hi : Z) :
  Forall (fun v => lo <= v <= hi) vs ->
  lo * Z.of_nat (length vs) <= Zsum vs <= hi * Z.of_nat (length vs).
Proof.
  induction 1 as [|v vs Hv Hvs IH]; cbn [Zsum foldr length]; [lia |].
  fold (Zsum vs). lia.
Qed.

(** ** The generator *)

Section Execution.

Context {RNG : Type} (srand : Z -> RNG) (rand : RNG -> Z * RNG).

Lemma length_draws (n : nat) (g : RNG) : length (draws rand n g) = n.
Proof.
  revert g. induction n as [|n IH]; intros g; simpl; [reflexivity |].
  destruct (rand g) as [raw g']. simpl. now rewrite IH.
Qed.

Lemma length_values (n : nat) (g : RNG) : length (values rand n g) = n.
Proof. unfold values. now rewrite length_fmap, length_draws. Qed.

Lemma rng_after_S (n : nat) (g : RNG) :
  rng_after rand (S n) g = snd (rand (rng_after rand n g)).
Proof. revert g. induction n as [|n IH]; intros g; simpl; [reflexivity |]. apply IH. Qed.

Lemma draws_step (n : nat) (g : RNG) :
  draws rand (S n) g = fst (rand g) :: draws rand n (snd (rand g)).
Proof. simpl. now destruct (rand g). Qed.

Lemma draws_S (n : nat) (g : RNG) :
  draws rand (S n) g = draws rand n g ++ [fst (rand (rng_after rand n g))].
Proof.
  revert g. induction n as [|n IH]; intros g.
  - now rewrite draws_step.
  - rewrite (draws_step (S n)), IH, (draws_step n). reflexivity.
Qed.

Lemma values_S (n : nat) (g : RNG) :
  values rand (S n) g =
  values rand n g ++ [map_value (fst (rand (rng_after rand n g)))].
Proof. unfold values. now rewrite draws_S, fmap_app. Qed.

Lemma values_take (k n : nat) (g : RNG) :
  (k <= n)%nat -> take k (values rand n g) = values rand k g.
Proof.
  intros Hk. induction Hk as [|n Hk IH].
  - rewrite take_ge; [reflexivity |]. now rewrite length_values.
  - rewrite values_S, take_app_le by (rewrite length_values; lia).
    exact IH.
Qed.

Lemma values_bounds (n : nat) (g : RNG) :
  Forall (fun v => -98 <= v <= 100) (values rand n g).
Proof. unfold values. apply Forall_fmap, Forall_true. intros raw. apply map_value_bounds. Qed.

Lemma values_lookup (n i : nat) (g : RNG) (raw : Z) :
  draws rand n g !! i = Some raw ->
  values rand n g !! i = Some (map_value raw).
Proof. intros H. unfold values. now rewrite list_lookup_fmap, H. Qed.

(** ** The loop *)

Lemma array_load_store (a : array) (i v : Z) :
  0 <= i < Z.of_nat (length a) ->
  array_load (<[Z.to_nat i := Some v]> a) i = Some v.
Proof.
  intros Hi. unfold array_load. rewrite decide_True by lia.
  rewrite list_lookup_insert_eq by lia. reflexivity.
Qed.

(** One iteration draws one raw value, stores the element in cell [i],
    prints it followed by a space and adds it to [sum]. *)
Lemma loop_body_spec (i : Z) (st : state RNG) :
  0 <= i < Z.of_nat (length (numbers st)) ->
  let v := map_value (fst (rand (rng st))) in
  loop_body rand i st =
  Some (mkState (snd (rand (rng st)))
                (<[Z.to_nat i := Some v]> (numbers st))
                (Int.add (sum st) v)
                (cout st +:+ show_int v +:+ " ")).
Proof.
  intros Hi v. unfold loop_body, array_store.
  destruct (rand (rng st)) as [raw g'] eqn:Hrand. subst v.
  rewrite decide_True by lia.
  cbn [mbind option_bind numbers put put_int rng sum cout fst snd].
  rewrite array_load_store by lia.
  cbn [mbind option_bind]. now rewrite append_assoc.
Qed.

Lemma for_loop_step (i : Z) (st : state RNG) :
  for_loop rand i st =
  if decide (i < SIZE)
  then st' ← loop_body rand i st; for_loop rand (Int.add i 1) st'
  else Some st.
Proof.
  rewrite for_loop_equation_1. unfold for_loop_clause_1.
  destruct (Z_lt_dec i SIZE) as [Hlt | Hge].
  - rewrite decide_True by assumption. reflexivity.
  - rewrite decide_False by assumption. reflexivity.
Qed.

Lemma for_loop_exit (i : Z) (st : state RNG) :
  SIZE <= i -> for_loop rand i st = Some st.
Proof. intros Hi. rewrite for_loop_step, decide_False by lia. reflexivity. Qed.

(** The loop entered with [i = 0] runs through the states reached by
    the first [k] executions of its body, for every [k] up to [SIZE]. *)
Lemma for_loop_iterations (k : nat) (st : state RNG) :
  Z.of_nat k <= SIZE ->
  for_loop rand 0 st =
  st' ← iterations rand k st; for_loop rand (Z.of_nat k) st'.
Proof.
  induction k as [|k IH]; intros Hk; [reflexivity |].
  rewrite IH by lia. cbn [iterations].
  destruct (iterations rand k st) as [stk|]; [| reflexivity].
  cbn [mbind option_bind].
  rewrite (for_loop_step (Z.of_nat k)), decide_True by lia.
  replace (Int.add (Z.of_nat k) 1) with (Z.of_nat (S k)); [reflexivity |].
  unfold Int.add. rewrite wrap_in_range; [lia |].
  unfold Int.in_range, Int.INT_MIN, Int.INT_MAX, SIZE in *. lia.
Qed.

Lemma for_loop_all (st : state RNG) :
  for_loop rand 0 st = iterations rand (Z.to_nat SIZE) st.
Proof.
  rewrite (for_loop_iterations (Z.to_nat SIZE)) by (unfold SIZE; lia).
  destruct (iterations rand (Z.to_nat SIZE) st) as [st'|]; [| reflexivity].
  cbn [mbind option_bind]. apply for_loop_exit. unfold SIZE. lia.
Qed.

(** The state after [k] iterations, in closed form. *)
Lemma iterations_spec (k : nat) (st : state RNG) :
  (k <= length (numbers st))%nat ->
  let vs := values rand k (rng st) in
  iterations rand k st =
  Some (mkState (rng_after rand k (rng st))
                ((Some <$> vs) ++ drop k (numbers st))
                (accumulate (sum st) vs)
                (cout st +:+ numbers_text vs)).
Proof.
  induction k as [|k IH]; intros Hk vs; subst vs.
  - cbn [iterations values draws fmap list_fmap rng_after accumulate foldl
           numbers_text foldr app drop].
    rewrite append_nil_r. now destruct st.
  - cbn [iterations]. rewrite IH by lia. cbn [mbind option_bind].
    destruct (lookup_lt_is_Some_2 (numbers st) k ltac:(lia)) as [c Hc].
    rewrite loop_body_spec;
      cbn [numbers rng sum cout];
      [| rewrite length_app, length_fmap, length_values, length_drop; lia].
    rewrite rng_after_S, values_S, fmap_app, numbers_text_app.
    unfold accumulate. rewrite foldl_snoc.
    f_equal. f_equal.
    + rewrite insert_app_r_alt
        by (rewrite length_fmap, length_values; lia).
      rewrite length_fmap, length_values, Nat2Z.id, Nat.sub_diag.
      rewrite (drop_S _ _ _ Hc). cbn [insert list_insert].
      rewrite <- app_assoc. reflexivity.
    + rewrite numbers_text_cons. cbn [numbers_text foldr].
      now rewrite !append_assoc.
Qed.

(** ** [main] *)

Lemma main_run_spec (now : Z) :
  let g := srand (now mod 2 ^ 32) in
  let vs := values rand 10 g in
  main_run srand rand now =
  Some (mkState (rng_after rand 10 g) (Some <$> vs) (accumulate 0 vs)
                (report vs (accumulate 0 vs))).
Proof.
  intros g vs. unfold main_run. rewrite for_loop_all.
  rewrite iterations_spec
    by (cbn [initial endl put numbers]; rewrite length_replicate; lia).
  unfold endl, put_int, put, initial.
  cbn [mbind option_bind rng numbers sum cout].
  change (Z.to_nat SIZE) with 10%nat. fold g. fold vs.
  f_equal. f_equal.
  - rewrite drop_ge by (rewrite length_replicate; lia). apply app_nil_r.
  - unfold report. now rewrite !append_assoc.
Qed.

Lemma main_spec (now : Z) :
  let vs := values rand 10 (srand (now mod 2 ^ 32)) in
  main srand rand now = Some (0, report vs (accumulate 0 vs)).
Proof. intros vs. unfold main. now rewrite main_run_spec. Qed.

End Execution.

(** * The claims *)

Section Claims.

Context {RNG : Type} (srand : Z -> RNG) (rand : RNG -> Z * RNG).

(** The accumulator after [k] iterations is the exact sum of the first
    [k] elements. *)
Lemma accumulate_values (k : nat) (g : RNG) :
  (k <= 10)%nat -> accumulate 0 (values rand k g) = Zsum (values rand k g).
Proof.
  intros Hk. rewrite accumulate_exact; [lia | apply values_bounds |].
  rewrite length_values. unfold Int.INT_MAX. lia.
Qed.

Lemma loop_entry_facts (now : Z) :
  rng (loop_entry srand now) = srand (now mod 2 ^ 32) /\
  numbers (loop_entry srand now) = replicate 10 None /\
  sum (loop_entry srand now) = 0 /\
  cout (loop_entry srand now) = label_elements +:+ endl_str.
Proof. repeat split. Qed.

(** The state after [k] iterations of the loop of [main]. *)
Lemma iterations_entry (k : nat) (now : Z) :
  (k <= 10)%nat ->
  let g := srand (now mod 2 ^ 32) in
  iterations rand k (loop_entry srand now) =
  Some (mkState (rng_after rand k g)
                ((Some <$> values rand k g) ++ replicate (10 - k) None)
                (Zsum (values rand k g))
                (label_elements +:+ endl_str +:+
                 numbers_text (values rand k g))).
Proof.
  intros Hk g. destruct (loop_entry_facts now) as (Hg & Hn & Hs & Hc).
  rewrite iterations_spec by (rewrite Hn, length_replicate; lia).
  rewrite Hg, Hn, Hs, Hc. fold g.
  rewrite drop_replicate, accumulate_values by lia.
  now rewrite append_assoc.
Qed.

(** C1, as the code has it: the label has a line of its own, so the ten
    numbers are displayed on the second line and the sum on the third.  For
    every generator and every clock value, the sum reported on the third
    line is the arithmetic sum of exactly the ten numbers displayed on the
    second line, which are the ten generated elements; the first line
    displays no number. *)
Theorem sum_line_matches_numbers_line (now : Z) :
  exists (out second third : string) (ns : list Z),
    main srand rand now = Some (0, out) /\
    lines out = [label_elements; second; third; ""] /\
    ns = values rand 10 (srand (now mod 2 ^ 32)) /\
    length ns = 10%nat /\
    numbers_on label_elements = [] /\
    tokens second = show_int <$> ns /\
    numbers_on second = ns /\
    reported_sum third = Some (Zsum ns).
Proof.
  set (ns := values rand 10 (srand (now mod 2 ^ 32))).
  exists (report ns (Zsum ns)), (numbers_text ns),
    (label_sum +:+ show_int (Zsum ns)), ns.
  split; [| split; [| split; [| split; [| split; [| split; [| split]]]]]].
  - rewrite main_spec. fold ns. unfold ns at 2.
    now rewrite accumulate_values by lia.
  - apply lines_report.
  - reflexivity.
  - apply length_values.
  - reflexivity.
  - apply tokens_numbers_text.
  - apply numbers_on_numbers_text.
  - apply reported_sum_line.
Qed.

(** C2: every element stored in [numbers] is [rand() % 100 + 1] of the raw
    value drawn for it, and for a nonnegative raw value this is
    [(raw mod 100) + 1], which lies between 1 and 100. *)
Theorem elements_in_range (now : Z) (i : nat) (raw : Z) :
  draws rand 10 (srand (now mod 2 ^ 32)) !! i = Some raw ->
  exists st : state RNG,
    main_run srand rand now = Some st /\
    numbers st !! i = Some (Some (map_value raw)) /\
    map_value raw = Z.rem raw 100 + 1 /\
    (0 <= raw ->
     map_value raw = raw mod 100 + 1 /\ 1 <= map_value raw <= 100).
Proof.
  intros Hraw. eexists. split; [apply main_run_spec |].
  cbn [numbers]. split; [| split].
  - rewrite list_lookup_fmap, (values_lookup rand _ _ _ _ Hraw). reflexivity.
  - apply map_value_exact.
  - apply map_value_nonneg.
Qed.

(** C3: whatever the generator, if its first ten raw values are
    5, 99, 0, 3, 50, 7, 88, 12, 200, 1 then the array holds
    6, 100, 1, 4, 51, 8, 89, 13, 1, 2, the sum is 275, and these are the
    numbers and the sum the program prints. *)
Theorem scenario_output (now : Z) :
  draws rand 10 (srand (now mod 2 ^ 32)) = scenario ->
  exists st : state RNG,
    main_run srand rand now = Some st /\
    numbers st = Some <$> [6; 100; 1; 4; 51; 8; 89; 13; 1; 2] /\
    sum st = 275 /\
    main srand rand now =
      Some (0, report [6; 100; 1; 4; 51; 8; 89; 13; 1; 2] 275).
Proof.
  intros Hdraws.
  assert (Hvs : values rand 10 (srand (now mod 2 ^ 32))
                = [6; 100; 1; 4; 51; 8; 89; 13; 1; 2]).
  { unfold values. rewrite Hdraws. reflexivity. }
  eexists. split; [apply main_run_spec |].
  cbn [numbers sum]. rewrite main_spec, Hvs.
  repeat split.
Qed.



(** C6: [sum] is 0 when the loop is entered.  After [k] iterations
    ([k] from 0 to 10) exactly [k] values have been drawn and stored, and
    [sum] is the sum of these [k] elements.  What the loop writes does not
    depend on the value of [sum]; the only use of [sum] for output is the
    one of [main] after the loop. *)
Theorem running_sum_invariant (now : Z) (k : nat) :
  (k <= 10)%nat ->
  let entry := loop_entry srand now in
  let g := srand (now mod 2 ^ 32) in
  sum entry = 0 /\
  exists st_k : state RNG,
    iterations rand k entry = Some st_k /\
    for_loop rand 0 entry = for_loop rand (Z.of_nat k) st_k /\
    rng st_k = rng_after rand k g /\
    numbers st_k = (Some <$> values rand k g) ++ replicate (10 - k) None /\
    sum st_k = Zsum (values rand k g) /\
    values rand k g = take k (values rand 10 g) /\
    (forall s0 : Z,
       cout <$> iterations rand k (with_sum s0 entry) = Some (cout st_k)) /\
    exists st_end : state RNG,
      for_loop rand 0 entry = Some st_end /\
      main srand rand now =
        Some (0, cout st_end +:+ endl_str +:+ label_sum +:+
                 show_int (sum st_end) +:+ endl_str).
Proof.
  intros Hk entry g. split; [reflexivity |].
  eexists. split; [apply iterations_entry; exact Hk |].
  cbn [rng numbers sum cout]. fold g.
  split; [| split; [| split; [| split; [| split; [| split]]]]];
    try reflexivity.
  - rewrite (for_loop_iterations rand k) by (unfold SIZE; lia).
    unfold entry. rewrite iterations_entry by exact Hk. reflexivity.
  - symmetry. apply values_take. exact Hk.
  - intros s0. rewrite iterations_spec
      by (cbn [with_sum numbers]; unfold entry;
          destruct (loop_entry_facts now) as (_ & -> & _);
          rewrite length_replicate; lia).
    cbn [fmap option_fmap option_map cout with_sum rng].
    unfold entry. destruct (loop_entry_facts now) as (-> & _ & _ & ->).
    fold g. now rewrite append_assoc.
  - eexists. split.
    + rewrite for_loop_all. change (Z.to_nat SIZE) with 10%nat.
      apply iterations_entry. lia.
    + rewrite main_spec, accumulate_values by lia. cbn [cout sum].
      unfold report. now rewrite !append_assoc.
Qed.

(** C8: for every generator and every clock value [main] runs to its end
    and returns 0; it returns no other exit code. *)
Theorem main_returns_zero (now : Z) :
  (exists out : string, main srand rand now = Some (0, out)) /\
  (forall (code : Z) (out : string),
     main srand rand now = Some (code, out) -> code = 0).
Proof.
  split.
  - eexists. apply main_spec.
  - intros code out Hmain. rewrite main_spec in Hmain.
    injection Hmain as <- _. reflexivity.
Qed.

(** C9: when the ten raw values are nonnegative, the printed sum lies
    between 10 and 1000, and at every step of the accumulation [sum] is the
    exact sum of the elements added so far, inside the range of [int]:
    no addition wraps around. *)
Theorem sum_bounds (now : Z) :
  Forall (fun raw => 0 <= raw) (draws rand 10 (srand (now mod 2 ^ 32))) ->
  let vs := values rand 10 (srand (now mod 2 ^ 32)) in
  exists st : state RNG,
    main_run srand rand now = Some st /\
    main srand rand now = Some (0, report vs (sum st)) /\
    sum st = Zsum vs /\
    10 <= sum st <= 1000 /\
    forall k : nat, (k <= 10)%nat ->
      exists st_k : state RNG,
        iterations rand k (loop_entry srand now) = Some st_k /\
        sum st_k = Zsum (take k vs) /\
        Z.of_nat k <= sum st_k <= 100 * Z.of_nat k /\
        Int.in_range (sum st_k).
Proof.
  intros Hraw vs.
  assert (Hvs : Forall (fun v => 1 <= v <= 100) vs).
  { unfold vs, values. apply Forall_fmap. eapply Forall_impl; [exact Hraw |].
    intros raw Hr. cbn. apply map_value_nonneg. exact Hr. }
  assert (Hpart : forall k : nat, (k <= 10)%nat ->
            Z.of_nat k <= Zsum (take k vs) <= 100 * Z.of_nat k).
  { intros k Hk.
    assert (Htake : Forall (fun v => 1 <= v <= 100) (take k vs))
      by (apply Forall_take; exact Hvs).
    pose proof (Zsum_bounds (take k vs) 1 100 Htake) as Hb.
    rewrite length_take in Hb. unfold vs in Hb at 1 4.
    rewrite length_values in Hb. lia. }
  eexists. split; [apply main_run_spec |]. cbn [sum].
  rewrite accumulate_values by lia. fold vs.
  split; [| split; [reflexivity | split]].
  - rewrite main_spec. fold vs. unfold vs at 2.
    rewrite accumulate_values by lia. reflexivity.
  - specialize (Hpart 10%nat ltac:(lia)).
    rewrite take_ge in Hpart by (unfold vs; rewrite length_values; lia). lia.
  - intros k Hk. eexists. split; [apply iterations_entry; exact Hk |].
    cbn [sum]. unfold vs. rewrite values_take by exact Hk.
    specialize (Hpart k Hk). unfold vs in Hpart.
    rewrite values_take in Hpart by exact Hk.
    repeat split; try lia;
      unfold Int.INT_MIN, Int.INT_MAX; lia.
Qed.

End Claims.

(** C7: two runs, whatever their generators and clock values, write
    outputs of one and the same shape: the line of the label, a line of
    exactly ten numbers, one line for the sum, and nothing else.  The shape
    does not depend on the values drawn. *)
Theorem output_shape_independent {R1 R2 : Type}
    (srand1 : Z -> R1) (rand1 : R1 -> Z * R1) (now1 : Z)
    (srand2 : Z -> R2) (rand2 : R2 -> Z * R2) (now2 : Z) :
  exists out1 out2 : string,
    main srand1 rand1 now1 = Some (0, out1) /\
    main srand2 rand2 now2 = Some (0, out2) /\
    shape out1 = shape out2 /\
    shape out1 = expected_shape.
Proof.
  eexists. eexists.
  split; [apply main_spec | split; [apply main_spec |]].
  rewrite !shape_report, !length_values. split; reflexivity.
Qed.

(** C10: two runs whose generators return the same ten raw values both
    run to their end, return 0 and write one and the same output, character
    for character: the same ten elements and the same sum.  In particular
    so do two runs of one generator from one seed. *)
Theorem equal_draws_equal_output {R1 R2 : Type}
    (srand1 : Z -> R1) (rand1 : R1 -> Z * R1) (now1 : Z)
    (srand2 : Z -> R2) (rand2 : R2 -> Z * R2) (now2 : Z) :
  draws rand1 10 (srand1 (now1 mod 2 ^ 32)) =
  draws rand2 10 (srand2 (now2 mod 2 ^ 32)) ->
  exists (out : string) (vs : list Z),
    main srand1 rand1 now1 = Some (0, out) /\
    main srand2 rand2 now2 = Some (0, out) /\
    values rand1 10 (srand1 (now1 mod 2 ^ 32)) = vs /\
    values rand2 10 (srand2 (now2 mod 2 ^ 32)) = vs /\
    out = report vs (Zsum vs).
Proof.
  intros Hdraws.
  assert (Hvs : values rand2 10 (srand2 (now2 mod 2 ^ 32))
                = values rand1 10 (srand1 (now1 mod 2 ^ 32)))
    by (unfold values; now rewrite Hdraws).
  exists (report (values rand1 10 (srand1 (now1 mod 2 ^ 32)))
                 (Zsum (values rand1 10 (srand1 (now1 mod 2 ^ 32))))),
    (values rand1 10 (srand1 (now1 mod 2 ^ 32))).
  split; [| split; [| split; [reflexivity | split; [exact Hvs | reflexivity]]]].
  - rewrite main_spec, accumulate_values by lia. reflexivity.
  - rewrite main_spec, Hvs. rewrite <- Hvs at 2.
    rewrite accumulate_values by lia. now rewrite Hvs.
Qed.

(** ** The claims at concrete inputs *)

(** On the scenario the first line displays no number and the second line
    is the line of the numbers, not the line of the sum. *)
Lemma sum_on_second_line_fails :
  exists out : string,
    Stub.run scenario = Some (0, out) /\ ~ sum_on_second_line out.
Proof.
  exists (report [6; 100; 1; 4; 51; 8; 89; 13; 1; 2] 275).
  split; [vm_compute; reflexivity |].
  intros (first & second & rest & Hlines & Hlen & _).
  rewrite lines_report in Hlines. injection Hlines as <- _ _.
  vm_compute in Hlen. discriminate Hlen.
Qed.


Lemma elements_in_range_witness :
  draws Stub.rand 10 (Stub.srand scenario (0 mod 2 ^ 32)) !! 8%nat = Some 200
  /\ exists st : state Stub.RNG,
       main_run (Stub.srand scenario) Stub.rand 0 = Some st /\
       numbers st !! 8%nat = Some (Some 1) /\
       1 <= map_value 200 <= 100.
Proof.
  split; [reflexivity |].
  destruct (elements_in_range (Stub.srand scenario) Stub.rand 0 8 200 eq_refl)
    as (st & Hrun & Hcell & _ & Hrange).
  exists st. split; [exact Hrun | split; [exact Hcell |]].
  apply Hrange. lia.
Defined.

Lemma scenario_output_witness :
  draws Stub.rand 10 (Stub.srand scenario (0 mod 2 ^ 32)) = scenario /\
  main (Stub.srand scenario) Stub.rand 0 =
    Some (0, report [6; 100; 1; 4; 51; 8; 89; 13; 1; 2] 275).
Proof.
  split; [reflexivity |].
  destruct (scenario_output (Stub.srand scenario) Stub.rand 0 eq_refl)
    as (st & _ & _ & _ & Hmain).
  exact Hmain.
Defined.

Lemma running_sum_invariant_witness :
  (3 <= 10)%nat /\
  exists st : state Stub.RNG,
    iterations Stub.rand 3 (loop_entry (Stub.srand scenario) 0) = Some st /\
    numbers st = [Some 6; Some 100; Some 1;
                  None; None; None; None; None; None; None] /\
    sum st = 107.
Proof.
  assert (Hk : (3 <= 10)%nat) by lia.
  split; [exact Hk |].
  destruct (running_sum_invariant (Stub.srand scenario) Stub.rand 0 3 Hk)
    as (_ & st & Hiter & _ & _ & Hnumbers & Hsum & _).
  exists st. split; [exact Hiter | split; [exact Hnumbers | exact Hsum]].
Defined.

Lemma sum_bounds_witness :
  Forall (fun raw => 0 <= raw)
         (draws Stub.rand 10 (Stub.srand scenario (0 mod 2 ^ 32))) /\
  exists st : state Stub.RNG,
    main_run (Stub.srand scenario) Stub.rand 0 = Some st /\
    10 <= sum st <= 1000.
Proof.
  assert (Hraw : Forall (fun raw => 0 <= raw)
           (draws Stub.rand 10 (Stub.srand scenario (0 mod 2 ^ 32)))).
  { repeat (constructor; [lia |]). constructor. }
  split; [exact Hraw |].
  destruct (sum_bounds (Stub.srand scenario) Stub.rand 0 Hraw)
    as (st & Hrun & _ & _ & Hbounds & _).
  exists st. split; [exact Hrun | exact Hbounds].
Defined.

(** Two stub generators in different states that agree on their first ten
    raw values. *)
Lemma equal_draws_equal_output_witness :
  draws Stub.rand 10 (Stub.srand scenario (0 mod 2 ^ 32)) =
  draws Stub.rand 10 (Stub.srand (scenario ++ [42; 7]) (1 mod 2 ^ 32)) /\
  exists out : string,
    main (Stub.srand scenario) Stub.rand 0 = Some (0, out) /\
    main (Stub.srand (scenario ++ [42; 7])) Stub.rand 1 = Some (0, out) /\
    out = report [6; 100; 1; 4; 51; 8; 89; 13; 1; 2] 275.
Proof.
  split; [reflexivity |].
  destruct (equal_draws_equal_output
              (Stub.srand scenario) Stub.rand 0
              (Stub.srand (scenario ++ [42; 7])) Stub.rand 1 eq_refl)
    as (out & vs & Hrun1 & Hrun2 & Hvs & _ & Hout).
  exists out. split; [exact Hrun1 | split; [exact Hrun2 |]].
  rewrite Hout, <- Hvs. reflexivity.
Defined.

(** * Further properties of the program *)

(** ** The loop body and the loop, entered in any state *)

Section Loop.

Context {RNG : Type} (rand : RNG -> Z * RNG).






End Loop.

(** ** The mapping [rand() % 100 + 1] *)

(** X3: the elements obtained from nonnegative raw values are exactly the
    integers from 1 to 100: each of them is reached, already by the raw
    value one below it, and nothing else is. *)
Theorem map_value_image (v : Z) :
  ((exists raw : Z, 0 <= raw /\ map_value raw = v) <-> 1 <= v <= 100) /\
  (1 <= v <= 100 -> map_value (v - 1) = v).
Proof.
  assert (Hreach : 1 <= v <= 100 -> map_value (v - 1) = v).
  { intros Hv. destruct (map_value_nonneg (v - 1)) as [Heq _]; [lia |].
    rewrite Heq, Z.mod_small by lia. lia. }
  split; [split |]; [| | exact Hreach].
  - intros (raw & Hraw & <-). apply map_value_nonneg. exact Hraw.
  - intros Hv. exists (v - 1). split; [lia | apply Hreach; exact Hv].
Qed.

(** X4: [%] truncates toward zero, so a negative raw value gives an
    element that is 1 minus the remainder of its absolute value: such an
    element lies between -98 and 1, outside the range 1..100 unless the raw
    value is a multiple of 100. *)
Theorem map_value_negative_raw (raw : Z) :
  raw < 0 ->
  map_value raw = 1 - (- raw) mod 100 /\
  -98 <= map_value raw <= 1 /\
  (1 <= map_value raw <= 100 <-> raw mod 100 = 0).
Proof.
  intros Hraw. rewrite map_value_exact.
  assert (Hrem : Z.rem raw 100 = - ((- raw) mod 100)).
  { rewrite <- (Z.opp_involutive raw) at 1.
    rewrite Z.rem_opp_l by lia. rewrite Z.rem_mod_nonneg by lia. reflexivity. }
  rewrite Hrem.
  pose proof (Z.mod_pos_bound (- raw) 100 ltac:(lia)) as Hb.
  split; [lia | split; [lia |]].
  pose proof (Z.mod_pos_bound raw 100 ltac:(lia)) as Hb'.
  pose proof (Z.div_mod raw 100 ltac:(lia)) as Hd.
  pose proof (Z.div_mod (- raw) 100 ltac:(lia)) as Hd'.
  split; intros H; lia.
Qed.

(** X5: the mapping is not uniform.  Among the raw values [0], ...,
    [n - 1], an element [v] between 1 and 100 is obtained from [n / 100]
    of them, and from one more when [v - 1] is below [n mod 100]; so when
    [n] is no multiple of 100 the small elements come up more often than
    the large ones. *)
Theorem count_raws_formula (v : Z) (n : nat) :
  1 <= v <= 100 ->
  count_raws v n =
  Z.of_nat n / 100 + (if decide (v - 1 < Z.of_nat n mod 100) then 1 else 0).
Proof.
  intros Hv. induction n as [|n IH].
  - cbn [count_raws]. change (Z.of_nat 0) with 0.
    rewrite Zdiv_0_l, Zmod_0_l, decide_False by lia. reflexivity.
  - cbn [count_raws]. rewrite IH.
    destruct (map_value_nonneg (Z.of_nat n)) as [Heq _]; [lia |].
    rewrite Heq, Nat2Z.inj_succ. unfold Z.succ.
    set (x := Z.of_nat n) in *.
    assert (Hx : 0 <= x) by (unfold x; lia).
    pose proof (Z.div_mod x 100 ltac:(lia)) as Hd.
    pose proof (Z.mod_pos_bound x 100 ltac:(lia)) as Hm.
    pose proof (Z.div_mod (x + 1) 100 ltac:(lia)) as Hd1.
    pose proof (Z.mod_pos_bound (x + 1) 100 ltac:(lia)) as Hm1.
    repeat case_decide; lia.
Qed.

(** With the least [RAND_MAX] the C standard allows, 32767, the elements
    1 to 68 each have 328 raw values and the elements 69 to 100 only 327. *)
Lemma count_raws_formula_witness :
  1 <= 68 <= 100 /\ 1 <= 69 <= 100 /\
  count_raws 68 (Z.to_nat 32768) = 328 /\
  count_raws 69 (Z.to_nat 32768) = 327.
Proof.
  assert (H68 : 1 <= 68 <= 100) by lia.
  assert (H69 : 1 <= 69 <= 100) by lia.
  split; [exact H68 | split; [exact H69 | split]].
  - rewrite (count_raws_formula 68 (Z.to_nat 32768) H68). vm_compute. reflexivity.
  - rewrite (count_raws_formula 69 (Z.to_nat 32768) H69). vm_compute. reflexivity.
Defined.

Lemma map_value_negative_raw_witness :
  -7 < 0 /\ map_value (-7) = -6.
Proof.
  assert (Hneg : -7 < 0) by lia.
  split; [exact Hneg |].
  destruct (map_value_negative_raw (-7) Hneg) as [Heq _].
  rewrite Heq. reflexivity.
Defined.

(** ** The whole run *)

Lemma numbers_text_inj (us vs : list Z) :
  numbers_text us = numbers_text vs -> us = vs.
Proof.
  intros H. rewrite <- (numbers_on_numbers_text us), H.
  apply numbers_on_numbers_text.
Qed.

(** The text of a run determines the elements it displays. *)
Lemma report_inj (us vs : list Z) (s t : Z) :
  report us s = report vs t -> us = vs.
Proof.
  intros H. apply (f_equal lines) in H. rewrite !lines_report in H.
  injection H as Hnums _. now apply numbers_text_inj.
Qed.

Lemma map_value_eq_iff (a b : Z) :
  map_value a = map_value b <-> Int.rem a 100 = Int.rem b 100.
Proof. rewrite !map_value_exact. unfold Int.rem. lia. Qed.

Lemma length_append (s t : string) :
  String.length (s +:+ t) = (String.length s + String.length t)%nat.
Proof. induction s as [|a s IH]; simpl; [reflexivity | now rewrite IH]. Qed.

Section Run.

Context {RNG : Type} (srand : Z -> RNG) (rand : RNG -> Z * RNG).

(** X6: when [main] returns, the array holds, in order and with every
    cell assigned, exactly the ten numbers displayed on the second line of
    the output, and [rand()] has been called exactly ten times since the
    seeding. *)
Theorem final_state (now : Z) :
  exists (st : state RNG) (second : string),
    main_run srand rand now = Some st /\
    lines (cout st) !! 1%nat = Some second /\
    numbers st = Some <$> numbers_on second /\
    length (numbers st) = Z.to_nat SIZE /\
    rng st = rng_after rand 10 (srand (now mod 2 ^ 32)).
Proof.
  eexists. eexists. split; [apply main_run_spec |].
  cbn [cout numbers rng]. rewrite lines_report.
  split; [reflexivity |]. rewrite numbers_on_numbers_text.
  split; [reflexivity | split; [| reflexivity]].
  now rewrite length_fmap, length_values.
Qed.

(** X7: the output is written as the elements are produced.  After [k]
    iterations the text written so far is the line of the label and the
    first [k] elements, each followed by a space, and what [main] writes
    in the end only extends it: by the remaining elements and by the line
    of the sum. *)
Theorem output_streaming (now : Z) (k : nat) :
  (k <= 10)%nat ->
  let vs := values rand 10 (srand (now mod 2 ^ 32)) in
  exists st_k : state RNG,
    iterations rand k (loop_entry srand now) = Some st_k /\
    cout st_k = label_elements +:+ endl_str +:+ numbers_text (take k vs) /\
    lines (cout st_k) = [label_elements; numbers_text (take k vs)] /\
    numbers_on (numbers_text (take k vs)) = take k vs /\
    main srand rand now =
      Some (0, cout st_k +:+ numbers_text (drop k vs) +:+ endl_str +:+
               label_sum +:+ show_int (Zsum vs) +:+ endl_str).
Proof.
  intros Hk vs. eexists. split; [apply iterations_entry; exact Hk |].
  cbn [cout]. rewrite <- (values_take rand k 10) by exact Hk. fold vs.
  split; [reflexivity | split; [| split]].
  - rewrite lines_app_endl. unfold lines.
    rewrite (split_on_absent nl label_elements) by reflexivity.
    rewrite (split_on_absent nl (numbers_text _))
      by apply numbers_text_no_nl.
    reflexivity.
  - apply numbers_on_numbers_text.
  - rewrite main_spec, accumulate_values by lia. fold vs.
    unfold report. rewrite <- (take_drop k vs) at 1.
    rewrite numbers_text_app. now rewrite !append_assoc.
Qed.

(** X8: whatever [rand()] returns, negative values included, every
    element lies between -98 and 100 and the sum that is printed is the
    exact sum of the ten elements, between -980 and 1000: no [int] of the
    program can overflow. *)
Theorem sum_exact_any_generator (now : Z) :
  let vs := values rand 10 (srand (now mod 2 ^ 32)) in
  exists st : state RNG,
    main_run srand rand now = Some st /\
    Forall (fun v => -98 <= v <= 100) vs /\
    sum st = Zsum vs /\
    -980 <= sum st <= 1000 /\
    reported_sum (label_sum +:+ show_int (sum st)) = Some (Zsum vs) /\
    main srand rand now = Some (0, report vs (Zsum vs)).
Proof.
  intros vs. eexists. split; [apply main_run_spec |]. cbn [sum].
  rewrite accumulate_values by lia. fold vs.
  assert (Hvs : Forall (fun v => -98 <= v <= 100) vs) by apply values_bounds.
  pose proof (Zsum_bounds vs (-98) 100 Hvs) as Hb.
  unfold vs in Hb at 1 4. rewrite length_values in Hb.
  split; [exact Hvs | split; [reflexivity | split; [lia | split]]].
  - apply reported_sum_line.
  - rewrite main_spec, accumulate_values by lia. reflexivity.
Qed.

End Run.

(** X9: two runs write the same text exactly when their ten raw values
    have, draw by draw, the same remainder [% 100]; generators that differ
    only by multiples of 100 cannot be told apart from the output. *)
Theorem equal_output_iff_congruent_draws {R1 R2 : Type}
    (srand1 : Z -> R1) (rand1 : R1 -> Z * R1) (now1 : Z)
    (srand2 : Z -> R2) (rand2 : R2 -> Z * R2) (now2 : Z) :
  main srand1 rand1 now1 = main srand2 rand2 now2 <->
  Forall2 (fun a b => Int.rem a 100 = Int.rem b 100)
          (draws rand1 10 (srand1 (now1 mod 2 ^ 32)))
          (draws rand2 10 (srand2 (now2 mod 2 ^ 32))).
Proof.
  rewrite !main_spec.
  set (d1 := draws rand1 10 _). set (d2 := draws rand2 10 _).
  assert (Hiff : map_value <$> d1 = map_value <$> d2 <->
                 Forall2 (fun a b => Int.rem a 100 = Int.rem b 100) d1 d2).
  { rewrite list_eq_Forall2, Forall2_fmap. split; intros H;
      (eapply Forall2_impl; [exact H |]); intros a b Hab;
      now apply map_value_eq_iff. }
  rewrite <- Hiff. unfold values. fold d1 d2. split.
  - intros H.
    apply (report_inj _ _ (accumulate 0 (map_value <$> d1))
                          (accumulate 0 (map_value <$> d2))).
    congruence.
  - intros ->. reflexivity.
Qed.

Lemma output_streaming_witness :
  (4 <= 10)%nat /\
  exists st : state Stub.RNG,
    iterations Stub.rand 4 (loop_entry (Stub.srand scenario) 0) = Some st /\
    lines (cout st) = [label_elements; "6 100 1 4 "].
Proof.
  assert (Hk : (4 <= 10)%nat) by lia.
  split; [exact Hk |].
  destruct (output_streaming (Stub.srand scenario) Stub.rand 0 4 Hk)
    as (st & Hiter & _ & Hlines & _).
  exists st. split; [exact Hiter | exact Hlines].
Defined.

(** ** The size of the output *)

(** The number of characters [operator<<] writes for an integer from 0 to
    1000. *)
Lemma show_int_length (v : Z) :
  0 <= v <= 1000 ->
  String.length (show_int v) =
  if v <? 10 then 1%nat else if v <? 100 then 2%nat
  else if v <? 1000 then 3%nat else 4%nat.
Proof.
  intros Hv.
  assert (Hall : forallb
            (fun v => Nat.eqb (String.length (show_int v))
               (if v <? 10 then 1%nat else if v <? 100 then 2%nat
                else if v <? 1000 then 3%nat else 4%nat))
            (seqZ 0 1001) = true) by (vm_compute; reflexivity).
  rewrite forallb_forall in Hall.
  apply Nat.eqb_eq, Hall, list_elem_of_In, elem_of_seqZ. lia.
Qed.

Lemma numbers_text_length (vs : list Z) :
  Forall (fun v => 1 <= v <= 100) vs ->
  (2 * length vs <= String.length (numbers_text vs) <= 4 * length vs)%nat.
Proof.
  induction 1 as [|v vs Hv Hvs IH]; [cbn; lia |].
  rewrite numbers_text_cons, !length_append, show_int_length by lia.
  cbn [length String.length].
  destruct (Z.ltb_spec v 10), (Z.ltb_spec v 100), (Z.ltb_spec v 1000); lia.
Qed.

(** X10: when the raw values are nonnegative, the whole output has at
    least 90 and at most 112 characters: the two labels, three line
    breaks, ten elements of one to three digits with their spaces, and a
    sum of two to four digits. *)
Theorem output_length_bounds {RNG : Type}
    (srand : Z -> RNG) (rand : RNG -> Z * RNG) (now : Z) :
  Forall (fun raw => 0 <= raw) (draws rand 10 (srand (now mod 2 ^ 32))) ->
  exists out : string,
    main srand rand now = Some (0, out) /\
    (90 <= String.length out <= 112)%nat.
Proof.
  intros Hraw. eexists. split; [apply main_spec |].
  rewrite accumulate_values by lia.
  set (vs := values rand 10 (srand (now mod 2 ^ 32))).
  assert (Hvs : Forall (fun v => 1 <= v <= 100) vs).
  { unfold vs, values. apply Forall_fmap. eapply Forall_impl; [exact Hraw |].
    intros raw Hr. cbn. apply map_value_nonneg. exact Hr. }
  assert (Hlen : length vs = 10%nat) by apply length_values.
  pose proof (numbers_text_length vs Hvs) as Htext.
  pose proof (Zsum_bounds vs 1 100 Hvs) as Hsum.
  rewrite Hlen in Htext, Hsum.
  unfold report. rewrite !length_append, show_int_length by lia.
  change (String.length label_elements) with 31%nat.
  change (String.length label_sum) with 34%nat.
  change (String.length endl_str) with 1%nat.
  destruct (Z.ltb_spec (Zsum vs) 10), (Z.ltb_spec (Zsum vs) 100),
    (Z.ltb_spec (Zsum vs) 1000); lia.
Qed.

(** Ten raw values 99 give ten elements 100 and the sum 1000: the longest
    output. *)
Lemma output_length_bounds_witness :
  Forall (fun raw => 0 <= raw)
    (draws Stub.rand 10 (Stub.srand (replicate 10 99) (0 mod 2 ^ 32))) /\
  exists out : string,
    main (Stub.srand (replicate 10 99)) Stub.rand 0 = Some (0, out) /\
    (90 <= String.length out <= 112)%nat.
Proof.
  assert (Hraw : Forall (fun raw => 0 <= raw)
    (draws Stub.rand 10 (Stub.srand (replicate 10 99) (0 mod 2 ^ 32)))).
  { repeat (constructor; [lia |]). constructor. }
  split; [exact Hraw |].
  exact (output_length_bounds (Stub.srand (replicate 10 99)) Stub.rand 0 Hraw).
Defined.

Example longest_output :
  (fun o => String.length (snd o))
    <$> main (Stub.srand (replicate 10 99)) Stub.rand 0 = Some 112%nat.
Proof. vm_compute. reflexivity. Qed.

Example shortest_output :
  (fun o => String.length (snd o))
    <$> main (Stub.srand (replicate 10 0)) Stub.rand 0 = Some 90%nat.
Proof. vm_compute. reflexivity. Qed.

